(** * fibonacci_app.py: the recursive Fibonacci function and its contract

    The repository holds one Python function, [fibonacci_recursive], and a
    Streamlit script that calls it once at the literal 10.  Python's [int] is
    unbounded, so the index and the result are modelled as [Z]; a raised
    exception is the left injection of a sum, a returned value the right one.
    The call stack is taken to be unbounded in the total model
    ([fibonacci_recursive]); the frame-indexed model ([fib_frames]) makes the
    number of stack frames explicit. *)

From Equations Require Import Equations.
From Stdlib Require Import ZArith String List Lia Arith Wellfounded DecimalString.
Import ListNotations.

Local Open Scope string_scope.
Local Open Scope Z_scope.

(** ** Exceptions and the error monad *)

(** The only exception the source raises. *)
Inductive exception : Type :=
| ValueError (msg : string).

(** Outcome of a call: [inl e] when [e] was raised, [inr v] when [v] was
    returned. *)
Definition result (A : Type) : Type := (exception + A)%type.

Definition ret {A : Type} (a : A) : result A := inr a.

Definition raise {A : Type} (e : exception) : result A := inl e.

(** An exception raised by the first computation propagates; the second one
    is not run. *)
Definition bind {A B : Type} (m : result A) (k : A -> result B) : result B :=
  match m with
  | inl e => inl e
  | inr a => k a
  end.

Notation "x <- m ;; k" := (bind m (fun x => k))
  (at level 61, m at next level, right associativity).

(** ** The function *)

(** [fibonacci_recursive(n)], lines 3-20 of fibonacci_app.py:
<<
    if n < 0:
        raise ValueError("n must be non-negative")
    if n <= 1:
        return n
    return fibonacci_recursive(n - 1) + fibonacci_recursive(n - 2)
>>
    The operands of [+] are evaluated left to right. *)
Equations? fibonacci_recursive (n : Z) : result Z by wf (Z.to_nat n) lt :=
  fibonacci_recursive n with Z_lt_dec n 0 => {
    | left _ := raise (ValueError "n must be non-negative");
    | right _ with Z_le_dec n 1 => {
      | left _ := ret n;
      | right _ :=
          a <- fibonacci_recursive (n - 1) ;;
          b <- fibonacci_recursive (n - 2) ;;
          ret (a + b) } }.
Proof. all: lia. Qed.

(** ** The call relation

    [call_rel m n]: a call at [n] makes a recursive call at [m] (line 20 is
    reached only past both guards, that is when [1 < n]). *)
Inductive call_rel : Z -> Z -> Prop :=
| call_left (n : Z) : 1 < n -> call_rel (n - 1) n
| call_right (n : Z) : 1 < n -> call_rel (n - 2) n.

(** ** The call stack made explicit

    [fib_frames d n] runs the same body with [d] stack frames available:
    the call itself takes one frame and each recursive call runs with one
    frame less.  [None] means that the frames ran out. *)
Fixpoint fib_frames (d : nat) (n : Z) : option (result Z) :=
  match d with
  | O => None
  | S d' =>
      if n <? 0 then Some (raise (ValueError "n must be non-negative"))
      else if n <=? 1 then Some (ret n)
      else
        match fib_frames d' (n - 1) with
        | None => None
        | Some (inl e) => Some (inl e)
        | Some (inr a) =>
            match fib_frames d' (n - 2) with
            | None => None
            | Some (inl e) => Some (inl e)
            | Some (inr b) => Some (ret (a + b))
            end
        end
  end.

(** ** Big-step evaluation

    [eval n r]: a call at [n] may end with outcome [r].  One rule per path
    through the body; the exception rules are the propagation of an
    exception out of the left and of the right operand of [+]. *)
Inductive eval : Z -> result Z -> Prop :=
| eval_negative (n : Z) :
    n < 0 -> eval n (inl (ValueError "n must be non-negative"))
| eval_base (n : Z) :
    0 <= n -> n <= 1 -> eval n (inr n)
| eval_add (n a b : Z) :
    1 < n -> eval (n - 1) (inr a) -> eval (n - 2) (inr b) ->
    eval n (inr (a + b))
| eval_raise_left (n : Z) (e : exception) :
    1 < n -> eval (n - 1) (inl e) -> eval n (inl e)
| eval_raise_right (n a : Z) (e : exception) :
    1 < n -> eval (n - 1) (inr a) -> eval (n - 2) (inl e) -> eval n (inl e).

(** ** The function inside a stateful program

    The same body in a state-and-exception monad over an external state
    [World], so that the function can be called from a program that has
    one (the script below, whose state is the page; the call counter
    further down).  The body itself has no statement that reads or writes
    outside its argument and its return value: the state is only threaded
    from one call to the next. *)
Section WithWorld.

Variable World : Type.

Definition M (A : Type) : Type := World -> result A * World.

Definition retM {A : Type} (a : A) : M A := fun w => (inr a, w).

Definition raiseM {A : Type} (e : exception) : M A := fun w => (inl e, w).

Definition bindM {A B : Type} (m : M A) (k : A -> M B) : M B :=
  fun w =>
    match m w with
    | (inl e, w') => (inl e, w')
    | (inr a, w') => k a w'
    end.

Equations? fibonacci_recursive_st (n : Z) : M Z by wf (Z.to_nat n) lt :=
  fibonacci_recursive_st n with Z_lt_dec n 0 => {
    | left _ := raiseM (ValueError "n must be non-negative");
    | right _ with Z_le_dec n 1 => {
      | left _ := retM n;
      | right _ :=
          bindM (fibonacci_recursive_st (n - 1)) (fun a =>
          bindM (fibonacci_recursive_st (n - 2)) (fun b =>
          retM (a + b))) } }.
Proof. all: lia. Qed.

End WithWorld.

Arguments retM {World A} a.
Arguments raiseM {World A} e.
Arguments bindM {World A B} m k.

(** ** The script

    Lines 22-35 of fibonacci_app.py.  The Streamlit session is abstracted
    to the list of elements written to the page so far; each [st.*] call
    appends one element. *)
Inductive element : Type :=
| Title (s : string)
| Text (s : string)
| Subheader (s : string)
| Code (s : string)
| Success (s : string)
| Info (s : string).

Definition session : Type := list element.

Definition st_emit (e : element) : M session unit :=
  fun page => (inr tt, (page ++ [e])%list).

(** [str] on an [int]: its decimal numeral. *)
Definition str (z : Z) : string := NilEmpty.string_of_int (Z.to_int z).

Definition fibonacci_app : M session unit :=
  bindM (st_emit (Title "Fibonacci Sequence - Recursive Implementation")) (fun _ =>
  bindM (st_emit (Text "This app displays the result of the first example from fibonacci-python-guide.md")) (fun _ =>
  bindM (st_emit (Subheader "Example Usage:")) (fun _ =>
  bindM (st_emit (Code "fibonacci_recursive(10)")) (fun _ =>
  bindM (fibonacci_recursive_st session 10) (fun result =>
  bindM (st_emit (Subheader "Result:")) (fun _ =>
  bindM (st_emit (Success ("fibonacci_recursive(10) = " ++ str result))) (fun _ =>
  st_emit (Info "This uses the recursive implementation from the first example in the fibonacci-python-guide.md file.")))))))).

(** ** Counting the calls

    The docstring of the function gives its time complexity as O(2^n).  The
    cost counted here is the number of invocations of the function: the
    same body, with the external state a counter that every invocation
    increments on entry. *)
Definition tick : M Z unit := fun c => (inr tt, c + 1).

Equations? fibonacci_recursive_counted (n : Z) : M Z Z by wf (Z.to_nat n) lt :=
  fibonacci_recursive_counted n with Z_lt_dec n 0 => {
    | left _ :=
        bindM tick (fun _ => raiseM (ValueError "n must be non-negative"));
    | right _ with Z_le_dec n 1 => {
      | left _ := bindM tick (fun _ => retM n);
      | right _ :=
          bindM tick (fun _ =>
          bindM (fibonacci_recursive_counted (n - 1)) (fun a =>
          bindM (fibonacci_recursive_counted (n - 2)) (fun b =>
          retM (a + b)))) } }.
Proof. all: lia. Qed.

(** ** The mathematical sequence

    The Fibonacci sequence as the glossary has it: each term is the sum of
    the two preceding terms, starting 0, 1. *)
Fixpoint Fib (k : nat) : Z :=
  match k with
  | O => 0
  | S k' =>
      match k' with
      | O => 1
      | S k'' => Fib k' + Fib k''
      end
  end.

(** * Properties *)

(** ** Unfolding and induction *)

(** The body of the function, as an equation. *)
Lemma fibonacci_recursive_body (n : Z) :
  fibonacci_recursive n =
  if n <? 0 then raise (ValueError "n must be non-negative")
  else if n <=? 1 then ret n
  else
    a <- fibonacci_recursive (n - 1) ;;
    b <- fibonacci_recursive (n - 2) ;;
    ret (a + b).
Proof.
  etransitivity; [apply fibonacci_recursive_equation_1|].
  destruct (Z_lt_dec n 0) as [Hneg|Hneg];
    destruct (Z.ltb_spec n 0); try lia.
  - apply fibonacci_recursive_clause_1_equation_1.
  - rewrite fibonacci_recursive_clause_1_equation_2.
    destruct (Z_le_dec n 1) as [Hle|Hle];
      destruct (Z.leb_spec n 1); try lia.
    + apply fibonacci_recursive_clause_1_clause_2_equation_1.
    + apply fibonacci_recursive_clause_1_clause_2_equation_2.
Qed.

Lemma fibonacci_recursive_negative (n : Z) :
  n < 0 -> fibonacci_recursive n = inl (ValueError "n must be non-negative").
Proof.
  intros Hn. rewrite fibonacci_recursive_body.
  destruct (Z.ltb_spec n 0); [reflexivity|lia].
Qed.

Lemma fibonacci_recursive_base (n : Z) :
  0 <= n -> n <= 1 -> fibonacci_recursive n = inr n.
Proof.
  intros H0 H1. rewrite fibonacci_recursive_body.
  destruct (Z.ltb_spec n 0); [lia|].
  destruct (Z.leb_spec n 1); [reflexivity|lia].
Qed.

Lemma fibonacci_recursive_step (n : Z) :
  1 < n ->
  fibonacci_recursive n =
  a <- fibonacci_recursive (n - 1) ;;
  b <- fibonacci_recursive (n - 2) ;;
  ret (a + b).
Proof.
  intros Hn. rewrite fibonacci_recursive_body.
  destruct (Z.ltb_spec n 0); [lia|].
  destruct (Z.leb_spec n 1); [lia|reflexivity].
Qed.

(** Every chain of recursive calls is finite. *)
Lemma call_rel_decreases (m n : Z) :
  call_rel m n -> (Z.to_nat m < Z.to_nat n)%nat.
Proof. intros [k Hk|k Hk]; lia. Qed.

Lemma call_rel_wf : well_founded call_rel.
Proof.
  apply (wf_incl _ _ (fun m n => (Z.to_nat m < Z.to_nat n)%nat)).
  - intros m n. apply call_rel_decreases.
  - apply wf_inverse_image, lt_wf.
Qed.

(** Induction along the three paths through the body. *)
Lemma fib_ind (P : Z -> Prop) :
  (forall n, n < 0 -> P n) ->
  (forall n, 0 <= n -> n <= 1 -> P n) ->
  (forall n, 1 < n -> P (n - 1) -> P (n - 2) -> P n) ->
  forall n, P n.
Proof.
  intros Hneg Hbase Hstep n.
  induction (call_rel_wf n) as [n _ IH].
  destruct (Z_lt_dec n 0) as [H0|H0]; [now apply Hneg|].
  destruct (Z_le_dec n 1) as [H1|H1]; [apply Hbase; lia|].
  apply Hstep; [lia| |]; apply IH; constructor; lia.
Qed.

(** ** Successful calls *)

(** At a non-negative index the call returns, and returns a non-negative
    integer. *)
Lemma fibonacci_recursive_returns (n : Z) :
  0 <= n -> exists v, fibonacci_recursive n = inr v /\ 0 <= v.
Proof.
  pattern n. apply fib_ind; clear n.
  - intros n Hn Hge. lia.
  - intros n H0 H1 _. exists n. split; [now apply fibonacci_recursive_base|lia].
  - intros n Hn IH1 IH2 _.
    destruct IH1 as (a & Ha & Ha0); [lia|].
    destruct IH2 as (b & Hb & Hb0); [lia|].
    exists (a + b). split; [|lia].
    rewrite (fibonacci_recursive_step n Hn), Ha, Hb. reflexivity.
Qed.

(** An exception comes only from line 17, hence only at a negative index. *)
Lemma fibonacci_recursive_raises (n : Z) (e : exception) :
  fibonacci_recursive n = inl e ->
  n < 0 /\ e = ValueError "n must be non-negative".
Proof.
  intros He. destruct (Z_lt_dec n 0) as [Hn|Hn].
  - rewrite (fibonacci_recursive_negative n Hn) in He.
    split; [exact Hn|congruence].
  - destruct (fibonacci_recursive_returns n) as (v & Hv & _); [lia|].
    congruence.
Qed.

(** C1. For every integer n >= 2 the call at n returns the sum of what the
    calls at n-1 and at n-2 return. *)
Theorem recurrence (n : Z) :
  2 <= n ->
  exists a b : Z,
    fibonacci_recursive (n - 1) = inr a /\
    fibonacci_recursive (n - 2) = inr b /\
    fibonacci_recursive n = inr (a + b).
Proof.
  intros Hn.
  destruct (fibonacci_recursive_returns (n - 1)) as (a & Ha & _); [lia|].
  destruct (fibonacci_recursive_returns (n - 2)) as (b & Hb & _); [lia|].
  exists a, b. split; [exact Ha|]. split; [exact Hb|].
  rewrite fibonacci_recursive_step by lia.
  rewrite Ha, Hb. reflexivity.
Qed.

Lemma recurrence_witness :
  2 <= 6 /\
  exists a b : Z,
    fibonacci_recursive (6 - 1) = inr a /\
    fibonacci_recursive (6 - 2) = inr b /\
    fibonacci_recursive 6 = inr (a + b).
Proof. split; [lia | apply (recurrence 6); lia]. Defined.

(** C2. The call at 0 returns 0 and the call at 1 returns 1; both return
    their argument from the first frame, without a recursive call. *)
Theorem base_cases :
  fibonacci_recursive 0 = inr 0 /\
  fibonacci_recursive 1 = inr 1 /\
  fib_frames 1 0 = Some (inr 0) /\
  fib_frames 1 1 = Some (inr 1).
Proof.
  split; [apply fibonacci_recursive_base; lia|].
  split; [apply fibonacci_recursive_base; lia|].
  split; reflexivity.
Qed.

(** C3. The call at the literal 10 returns 55, and the script, run on an
    empty page, binds 55 to [result] and shows it in the success box. *)
Theorem fibonacci_recursive_10 :
  fibonacci_recursive 10 = inr 55 /\
  fibonacci_recursive_st session 10 [] = (inr 55, []) /\
  fibonacci_app [] =
  (inr tt,
   [ Title "Fibonacci Sequence - Recursive Implementation";
     Text "This app displays the result of the first example from fibonacci-python-guide.md";
     Subheader "Example Usage:";
     Code "fibonacci_recursive(10)";
     Subheader "Result:";
     Success "fibonacci_recursive(10) = 55";
     Info "This uses the recursive implementation from the first example in the fibonacci-python-guide.md file." ]).
Proof. repeat split; vm_compute; reflexivity. Qed.

(** C4. For every integer n < 0 the call raises ValueError with the message
    "n must be non-negative"; it does so in its first frame and makes no
    recursive call.  In particular at n = -1. *)
Theorem negative_rejected (n : Z) :
  n < 0 ->
  fibonacci_recursive n = inl (ValueError "n must be non-negative") /\
  fib_frames 1 n = Some (inl (ValueError "n must be non-negative")) /\
  forall m : Z, ~ call_rel m n.
Proof.
  intros Hn. split; [now apply fibonacci_recursive_negative|]. split.
  - simpl. destruct (Z.ltb_spec n 0); [reflexivity|lia].
  - intros m Hcall. inversion Hcall; lia.
Qed.

Lemma negative_rejected_witness :
  -1 < 0 /\
  fibonacci_recursive (-1) = inl (ValueError "n must be non-negative") /\
  fib_frames 1 (-1) = Some (inl (ValueError "n must be non-negative")) /\
  forall m : Z, ~ call_rel m (-1).
Proof. split; [lia | apply (negative_rejected (-1)); lia]. Defined.

(** C5. For every integer n >= 0 the call succeeds and returns an integer;
    whenever a call raises, the argument was negative and the exception is
    the ValueError of line 17. *)
Theorem nonnegative_succeeds (n : Z) :
  (0 <= n -> exists v : Z, fibonacci_recursive n = inr v) /\
  (forall e : exception,
     fibonacci_recursive n = inl e ->
     n < 0 /\ e = ValueError "n must be non-negative").
Proof.
  split.
  - intros Hn. destruct (fibonacci_recursive_returns n Hn) as (v & Hv & _).
    now exists v.
  - apply fibonacci_recursive_raises.
Qed.

Lemma nonnegative_succeeds_witness :
  0 <= 4 /\ exists v : Z, fibonacci_recursive 4 = inr v.
Proof. split; [lia | apply (proj1 (nonnegative_succeeds 4)); lia]. Defined.

(** ** Stack frames *)

(** More frames never change an outcome. *)
Lemma fib_frames_mono (d : nat) :
  forall (d' : nat) (n : Z) (r : result Z),
    (d <= d')%nat -> fib_frames d n = Some r -> fib_frames d' n = Some r.
Proof.
  induction d as [|d IH]; intros d' n r Hle Hr; [discriminate|].
  destruct d' as [|d']; [lia|].
  simpl in *.
  destruct (n <? 0); [exact Hr|].
  destruct (n <=? 1); [exact Hr|].
  destruct (fib_frames d (n - 1)) as [[e|a]|] eqn:H1; try discriminate.
  - rewrite (IH d' (n - 1) (inl e)); [exact Hr|lia|exact H1].
  - rewrite (IH d' (n - 1) (inr a)); [|lia|exact H1].
    destruct (fib_frames d (n - 2)) as [[e|b]|] eqn:H2; try discriminate.
    + rewrite (IH d' (n - 2) (inl e)); [exact Hr|lia|exact H2].
    + rewrite (IH d' (n - 2) (inr b)); [exact Hr|lia|exact H2].
Qed.

(** With max(1, n) frames the run ends, with the outcome of the total
    model. *)
Lemma fib_frames_enough (n : Z) :
  fib_frames (Z.to_nat (Z.max 1 n)) n = Some (fibonacci_recursive n).
Proof.
  pattern n. apply fib_ind; clear n.
  - intros n Hn. rewrite (fibonacci_recursive_negative n Hn).
    replace (Z.to_nat (Z.max 1 n)) with 1%nat by lia.
    simpl. destruct (Z.ltb_spec n 0); [reflexivity|lia].
  - intros n H0 H1. rewrite (fibonacci_recursive_base n H0 H1).
    replace (Z.to_nat (Z.max 1 n)) with 1%nat by lia.
    simpl. destruct (Z.ltb_spec n 0); [lia|].
    destruct (Z.leb_spec n 1); [reflexivity|lia].
  - intros n Hn IH1 IH2.
    replace (Z.to_nat (Z.max 1 n)) with (S (Z.to_nat (Z.max 1 (n - 1)))) by lia.
    apply (fib_frames_mono _ (Z.to_nat (Z.max 1 (n - 1)))) in IH2; [|lia].
    rewrite (fibonacci_recursive_step n Hn).
    simpl fib_frames.
    destruct (Z.ltb_spec n 0); [lia|].
    destruct (Z.leb_spec n 1); [lia|].
    rewrite IH1, IH2.
    destruct (fibonacci_recursive (n - 1)) as [e|a]; [reflexivity|].
    destruct (fibonacci_recursive (n - 2)) as [e|b]; reflexivity.
Qed.

(** With fewer than n frames the run does not end. *)
Lemma fib_frames_short (d : nat) :
  forall n : Z, (d < Z.to_nat n)%nat -> fib_frames d n = None.
Proof.
  induction d as [|d IH]; intros n Hd; [reflexivity|].
  simpl.
  destruct (Z.ltb_spec n 0); [lia|].
  destruct (Z.leb_spec n 1); [lia|].
  rewrite (IH (n - 1)) by lia. reflexivity.
Qed.

(** C6. For every integer n >= 0 the call terminates: every chain of
    recursive calls below n is finite, the call returns a value v, and the
    run fits in max(1, n) stack frames (the frame of the call itself and at
    most n beneath it), while fewer than n frames are not enough. *)
Theorem terminates_within_depth (n : Z) :
  0 <= n ->
  Acc call_rel n /\
  exists v : Z,
    fibonacci_recursive n = inr v /\
    fib_frames (Z.to_nat (Z.max 1 n)) n = Some (inr v) /\
    (forall d : nat, (Z.to_nat n <= d)%nat ->
       fib_frames (S d) n = Some (inr v)) /\
    (forall d : nat, (d < Z.to_nat n)%nat -> fib_frames d n = None).
Proof.
  intros Hn. split; [apply call_rel_wf|].
  destruct (fibonacci_recursive_returns n Hn) as (v & Hv & _).
  exists v. split; [exact Hv|].
  assert (Hfit : fib_frames (Z.to_nat (Z.max 1 n)) n = Some (inr v)).
  { rewrite fib_frames_enough, Hv. reflexivity. }
  split; [exact Hfit|]. split.
  - intros d Hd.
    apply (fib_frames_mono (Z.to_nat (Z.max 1 n))); [lia|exact Hfit].
  - intros d Hd. now apply fib_frames_short.
Qed.

Lemma terminates_within_depth_witness :
  0 <= 5 /\
  Acc call_rel 5 /\
  exists v : Z,
    fibonacci_recursive 5 = inr v /\
    fib_frames (Z.to_nat (Z.max 1 5)) 5 = Some (inr v) /\
    (forall d : nat, (Z.to_nat 5 <= d)%nat ->
       fib_frames (S d) 5 = Some (inr v)) /\
    (forall d : nat, (d < Z.to_nat 5)%nat -> fib_frames d 5 = None).
Proof. split; [lia | apply (terminates_within_depth 5); lia]. Defined.

(** ** Order *)

(** C7. Monotonicity: for every integer n >= 1 the value returned at n is
    at least the value returned at n-1. *)
Theorem monotone (n : Z) :
  1 <= n ->
  exists a b : Z,
    fibonacci_recursive n = inr a /\
    fibonacci_recursive (n - 1) = inr b /\
    b <= a.
Proof.
  intros Hn.
  destruct (fibonacci_recursive_returns (n - 1)) as (b & Hb & Hb0); [lia|].
  destruct (Z.eq_dec n 1) as [->|Hne].
  - exists 1, b. split; [apply fibonacci_recursive_base; lia|].
    split; [exact Hb|].
    change (1 - 1) with 0 in Hb.
    rewrite fibonacci_recursive_base in Hb by lia.
    injection Hb as <-. lia.
  - destruct (fibonacci_recursive_returns (n - 2)) as (c & Hc & Hc0); [lia|].
    exists (b + c), b. split; [|split; [exact Hb|lia]].
    rewrite fibonacci_recursive_step by lia.
    rewrite Hb, Hc. reflexivity.
Qed.

Lemma monotone_witness :
  1 <= 3 /\
  exists a b : Z,
    fibonacci_recursive 3 = inr a /\
    fibonacci_recursive (3 - 1) = inr b /\
    b <= a.
Proof. split; [lia | apply (monotone 3); lia]. Defined.

(** ** Evaluation is a function *)

(** The total model is a run of the body. *)
Lemma eval_fibonacci_recursive (n : Z) : eval n (fibonacci_recursive n).
Proof.
  pattern n. apply fib_ind; clear n.
  - intros n Hn. rewrite (fibonacci_recursive_negative n Hn).
    now constructor.
  - intros n H0 H1. rewrite (fibonacci_recursive_base n H0 H1).
    now constructor.
  - intros n Hn IH1 IH2. rewrite (fibonacci_recursive_step n Hn).
    destruct (fibonacci_recursive (n - 1)) as [e|a]; simpl.
    + now apply eval_raise_left.
    + destruct (fibonacci_recursive (n - 2)) as [e|b]; simpl.
      * now apply eval_raise_right with a.
      * now apply eval_add.
Qed.

(** C8. Determinism: two runs of the call at the same n end with the same
    outcome, the same returned value or the same raised exception. *)
Theorem deterministic (n : Z) (r1 r2 : result Z) :
  eval n r1 -> eval n r2 -> r1 = r2.
Proof.
  intros H1. revert r2.
  induction H1 as
    [n Hn | n H0 Hle | n a b Hn Ha IHa Hb IHb
    | n e Hn He IHe | n a e Hn Ha IHa He IHe];
    intros r2 H2; inversion H2; subst; try lia; try reflexivity;
    repeat match goal with
    | IH : forall r, eval ?m r -> _ = r, H : eval ?m _ |- _ => apply IH in H
    end;
    congruence.
Qed.

Lemma deterministic_witness :
  eval 2 (inr (1 + 0)) /\ eval 2 (fibonacci_recursive 2) /\
  inr (1 + 0) = fibonacci_recursive 2.
Proof.
  assert (H1 : eval 2 (inr (1 + 0))).
  { apply eval_add; [lia| |]; apply eval_base; lia. }
  assert (H2 : eval 2 (fibonacci_recursive 2)).
  { apply eval_fibonacci_recursive. }
  split; [exact H1|]. split; [exact H2|].
  exact (deterministic 2 _ _ H1 H2).
Defined.

(** ** The exact sequence *)

Lemma Fib_step (k : nat) : Fib (S (S k)) = Fib (S k) + Fib k.
Proof. reflexivity. Qed.

Lemma Fib_nonneg (k : nat) : 0 <= Fib k /\ 0 <= Fib (S k).
Proof.
  induction k as [|k [IH0 IH1]]; [simpl; lia|].
  split; [exact IH1|]. rewrite Fib_step. lia.
Qed.

Lemma Fib_pos (k : nat) : 1 <= Fib (S k).
Proof.
  induction k as [|k IH]; [simpl; lia|].
  rewrite Fib_step. pose proof (Fib_nonneg k) as [H _]. lia.
Qed.

(** The sequence passes every bound. *)
Lemma Fib_lower (k : nat) : Z.of_nat k <= Fib (S (S (S (S k)))) - 3.
Proof.
  induction k as [|k IH]; [simpl; lia|].
  rewrite Fib_step. pose proof (Fib_pos (S (S k))). lia.
Qed.

(** The total model computes the sequence. *)
Lemma fibonacci_recursive_Fib (n : Z) :
  0 <= n -> fibonacci_recursive n = inr (Fib (Z.to_nat n)).
Proof.
  pattern n. apply fib_ind; clear n.
  - intros; lia.
  - intros n H0 H1 _. rewrite fibonacci_recursive_base by lia.
    assert (Hn : n = 0 \/ n = 1) by lia. destruct Hn as [->| ->]; reflexivity.
  - intros n Hn IH1 IH2 _.
    rewrite fibonacci_recursive_step, IH1, IH2 by lia. simpl bind.
    replace (Z.to_nat n) with (S (S (Z.to_nat (n - 2)))) by lia.
    replace (Z.to_nat (n - 1)) with (S (Z.to_nat (n - 2))) by lia.
    rewrite Fib_step. reflexivity.
Qed.

(** No fixed width holds the returned values: they pass every bound. *)
Lemma fibonacci_recursive_unbounded (B : Z) :
  exists n v : Z, 0 <= n /\ fibonacci_recursive n = inr v /\ B < v.
Proof.
  exists (Z.max 0 B + 4), (Fib (Z.to_nat (Z.max 0 B + 4))).
  split; [lia|]. split; [apply fibonacci_recursive_Fib; lia|].
  replace (Z.to_nat (Z.max 0 B + 4))
    with (S (S (S (S (Z.to_nat (Z.max 0 B)))))) by lia.
  pose proof (Fib_lower (Z.to_nat (Z.max 0 B))). lia.
Qed.

(** C10. For every integer n >= 0 the call returns the n-th term of the
    mathematical Fibonacci sequence, computed over the unbounded integers:
    the value is exact and non-negative, whatever the size of n. *)
Theorem exact_fibonacci (n : Z) :
  0 <= n ->
  fibonacci_recursive n = inr (Fib (Z.to_nat n)) /\
  0 <= Fib (Z.to_nat n).
Proof.
  intros Hn. split; [now apply fibonacci_recursive_Fib|apply Fib_nonneg].
Qed.

Lemma exact_fibonacci_witness :
  0 <= 12 /\
  fibonacci_recursive 12 = inr (Fib (Z.to_nat 12)) /\
  0 <= Fib (Z.to_nat 12).
Proof. split; [lia | apply (exact_fibonacci 12); lia]. Defined.

(** * Further properties *)

(** ** Growth of the sequence *)

Lemma Fib_le_succ (k : nat) : Fib k <= Fib (S k).
Proof.
  destruct k as [|k]; [simpl; lia|].
  rewrite Fib_step. pose proof (Fib_nonneg k) as [H _]. lia.
Qed.

Lemma Fib_le (k l : nat) : (k <= l)%nat -> Fib k <= Fib l.
Proof.
  induction 1 as [|l _ IH]; [lia|].
  pose proof (Fib_le_succ l). lia.
Qed.

Lemma Fib_lt (k l : nat) : (2 <= k)%nat -> (k < l)%nat -> Fib k < Fib l.
Proof.
  intros Hk Hl.
  apply Z.lt_le_trans with (Fib (S k)); [|now apply Fib_le].
  destruct k as [|[|k]]; try lia.
  rewrite (Fib_step (S k)). pose proof (Fib_pos k). lia.
Qed.

Lemma Fib_upper (k : nat) :
  Fib (S k) <= 2 ^ Z.of_nat k /\ Fib (S (S k)) <= 2 ^ Z.of_nat k.
Proof.
  induction k as [|k [IH1 IH2]]; [simpl; lia|].
  rewrite Nat2Z.inj_succ, Z.pow_succ_r by lia.
  split; [lia|]. rewrite Fib_step. lia.
Qed.

Lemma Fib_lower_pow (k : nat) :
  2 ^ (Z.of_nat k / 2) <= Fib (S k) /\
  2 ^ (Z.of_nat (S k) / 2) <= Fib (S (S k)).
Proof.
  induction k as [|k [IH1 IH2]]; [split; vm_compute; discriminate|].
  split; [exact IH2|].
  replace (Z.of_nat (S (S k)) / 2) with (Z.succ (Z.of_nat k / 2)).
  - rewrite Z.pow_succ_r by (apply Z.div_pos; lia).
    rewrite (Fib_step (S k)). pose proof (Fib_le_succ (S k)). lia.
  - rewrite !Nat2Z.inj_succ.
    replace (Z.succ (Z.succ (Z.of_nat k))) with (Z.of_nat k + 1 * 2) by lia.
    rewrite Z.div_add by lia. lia.
Qed.

(** X1. Monotonicity at any distance: for 0 <= m <= n the value returned
    at m is at most the value returned at n, and it is strictly smaller
    when 2 <= m < n (the only repeated value is 1, at the indices 1 and
    2). *)
Theorem monotone_at_distance (m n : Z) :
  0 <= m -> m <= n ->
  exists a b : Z,
    fibonacci_recursive m = inr a /\
    fibonacci_recursive n = inr b /\
    a <= b /\
    (2 <= m -> m < n -> a < b).
Proof.
  intros Hm Hmn.
  exists (Fib (Z.to_nat m)), (Fib (Z.to_nat n)).
  split; [apply fibonacci_recursive_Fib; lia|].
  split; [apply fibonacci_recursive_Fib; lia|].
  split; [apply Fib_le; lia|].
  intros H2 Hlt. apply Fib_lt; lia.
Qed.

Lemma monotone_at_distance_witness :
  0 <= 3 /\ 3 <= 8 /\
  exists a b : Z,
    fibonacci_recursive 3 = inr a /\
    fibonacci_recursive 8 = inr b /\
    a <= b /\
    (2 <= 3 -> 3 < 8 -> a < b).
Proof.
  split; [lia|]. split; [lia|]. apply (monotone_at_distance 3 8); lia.
Defined.

(** X2. Size of the result: for every n >= 1 the returned value lies
    between 2^((n-1)/2) and 2^(n-1) (integer division in the exponent):
    it grows exponentially with n and never exceeds 2^(n-1). *)
Theorem value_bounds (n : Z) :
  1 <= n ->
  exists v : Z,
    fibonacci_recursive n = inr v /\
    2 ^ ((n - 1) / 2) <= v /\
    v <= 2 ^ (n - 1).
Proof.
  intros Hn. exists (Fib (Z.to_nat n)).
  split; [apply fibonacci_recursive_Fib; lia|].
  replace (Z.to_nat n) with (S (Z.to_nat (n - 1))) by lia.
  pose proof (Fib_lower_pow (Z.to_nat (n - 1))) as [Hlo _].
  pose proof (Fib_upper (Z.to_nat (n - 1))) as [Hup _].
  rewrite Z2Nat.id in Hlo, Hup by lia.
  split; assumption.
Qed.

Lemma value_bounds_witness :
  1 <= 9 /\
  exists v : Z,
    fibonacci_recursive 9 = inr v /\
    2 ^ ((9 - 1) / 2) <= v /\
    v <= 2 ^ (9 - 1).
Proof. split; [lia | apply (value_bounds 9); lia]. Defined.

(** ** Number of calls *)

Lemma fibonacci_recursive_counted_body (n : Z) :
  fibonacci_recursive_counted n =
  bindM tick (fun _ =>
    if n <? 0 then raiseM (ValueError "n must be non-negative")
    else if n <=? 1 then retM n
    else
      bindM (fibonacci_recursive_counted (n - 1)) (fun a =>
      bindM (fibonacci_recursive_counted (n - 2)) (fun b =>
      retM (a + b)))).
Proof.
  etransitivity; [apply fibonacci_recursive_counted_equation_1|].
  destruct (Z_lt_dec n 0) as [Hneg|Hneg];
    destruct (Z.ltb_spec n 0); try lia.
  - apply fibonacci_recursive_counted_clause_1_equation_1.
  - rewrite fibonacci_recursive_counted_clause_1_equation_2.
    destruct (Z_le_dec n 1) as [Hle|Hle];
      destruct (Z.leb_spec n 1); try lia.
    + apply fibonacci_recursive_counted_clause_1_clause_2_equation_1.
    + apply fibonacci_recursive_counted_clause_1_clause_2_equation_2.
Qed.

(** Counting does not change the outcome, and a call at n >= 0 adds
    2 * Fib (n + 1) - 1 to the counter. *)
Lemma fibonacci_recursive_counted_Fib (n : Z) :
  0 <= n ->
  forall c : Z,
    fibonacci_recursive_counted n c =
    (inr (Fib (Z.to_nat n)), c + (2 * Fib (S (Z.to_nat n)) - 1)).
Proof.
  pattern n. apply fib_ind; clear n.
  - intros; lia.
  - intros n H0 H1 _ c. rewrite fibonacci_recursive_counted_body.
    unfold bindM, tick.
    destruct (Z.ltb_spec n 0); [lia|].
    destruct (Z.leb_spec n 1); [|lia].
    assert (Hn : n = 0 \/ n = 1) by lia. destruct Hn as [->| ->]; reflexivity.
  - intros n Hn IH1 IH2 _ c. rewrite fibonacci_recursive_counted_body.
    unfold bindM at 1. unfold tick.
    destruct (Z.ltb_spec n 0); [lia|].
    destruct (Z.leb_spec n 1); [lia|].
    unfold bindM at 1. rewrite IH1 by lia.
    unfold bindM at 1. rewrite IH2 by lia.
    unfold retM.
    replace (Z.to_nat n) with (S (S (Z.to_nat (n - 2)))) by lia.
    replace (Z.to_nat (n - 1)) with (S (Z.to_nat (n - 2))) by lia.
    rewrite (Fib_step (S (Z.to_nat (n - 2)))), (Fib_step (Z.to_nat (n - 2))).
    f_equal. lia.
Qed.

(** X3. Cost in calls: a call at n >= 0 returns what the uncounted function
    returns and makes, itself included, 2 * v - 1 invocations of the
    function, where v is the value returned at n + 1. *)
Theorem call_count (n c : Z) :
  0 <= n ->
  exists v : Z,
    fibonacci_recursive (n + 1) = inr v /\
    fibonacci_recursive_counted n c =
    (fibonacci_recursive n, c + (2 * v - 1)).
Proof.
  intros Hn. exists (Fib (S (Z.to_nat n))).
  split.
  - rewrite fibonacci_recursive_Fib by lia.
    replace (Z.to_nat (n + 1)) with (S (Z.to_nat n)) by lia. reflexivity.
  - rewrite fibonacci_recursive_counted_Fib, fibonacci_recursive_Fib by lia.
    reflexivity.
Qed.

Lemma call_count_witness :
  0 <= 6 /\
  exists v : Z,
    fibonacci_recursive (6 + 1) = inr v /\
    fibonacci_recursive_counted 6 0 =
    (fibonacci_recursive 6, 0 + (2 * v - 1)).
Proof. split; [lia | apply (call_count 6 0); lia]. Defined.

(** X4. The cost is exponential, as the docstring says: the number of
    invocations made by a call at n >= 0 lies between 2^(n/2) and 2^n. *)
Theorem call_count_exponential (n : Z) :
  0 <= n ->
  exists k : Z,
    snd (fibonacci_recursive_counted n 0) = k /\
    2 ^ (n / 2) <= k /\
    k <= 2 ^ n.
Proof.
  intros Hn. rewrite fibonacci_recursive_counted_Fib by lia.
  eexists. split; [reflexivity|]. cbn [snd].
  pose proof (Fib_lower_pow (Z.to_nat n)) as [Hlo _].
  rewrite Z2Nat.id in Hlo by lia.
  assert (Hpos : 0 < 2 ^ (n / 2)).
  { apply Z.pow_pos_nonneg; [lia|]. apply Z.div_pos; lia. }
  split; [lia|].
  destruct (Z.eq_dec n 0) as [->|Hne]; [vm_compute; discriminate|].
  replace (Z.to_nat n) with (S (Z.to_nat (n - 1))) by lia.
  pose proof (Fib_upper (Z.to_nat (n - 1))) as [_ Hup].
  rewrite Z2Nat.id in Hup by lia.
  replace n with (Z.succ (n - 1)) at 2 by lia.
  rewrite Z.pow_succ_r by lia. lia.
Qed.

Lemma call_count_exponential_witness :
  0 <= 8 /\
  exists k : Z,
    snd (fibonacci_recursive_counted 8 0) = k /\
    2 ^ (8 / 2) <= k /\
    k <= 2 ^ 8.
Proof. split; [lia | apply (call_count_exponential 8); lia]. Defined.

(** A call at a negative index is a single invocation. *)
Lemma fibonacci_recursive_counted_negative (n c : Z) :
  n < 0 ->
  fibonacci_recursive_counted n c =
  (inl (ValueError "n must be non-negative"), c + 1).
Proof.
  intros Hn. rewrite fibonacci_recursive_counted_body.
  unfold bindM, tick.
  destruct (Z.ltb_spec n 0); [reflexivity|lia].
Qed.

(** ** Exact stack depth *)

(** X6. The docstring's O(n) recursion stack, exactly: for every integer n
    and every number d of available frames, the run fails for lack of
    frames when d < max(1, n), and otherwise ends with the outcome of the
    unbounded model; a limit on the stack never changes an outcome. *)
Theorem fib_frames_exact (d : nat) (n : Z) :
  fib_frames d n =
  if (Z.of_nat d <? Z.max 1 n) then None else Some (fibonacci_recursive n).
Proof.
  destruct (Z.ltb_spec (Z.of_nat d) (Z.max 1 n)) as [Hlt|Hge].
  - destruct d as [|d]; [reflexivity|].
    apply fib_frames_short. lia.
  - apply (fib_frames_mono (Z.to_nat (Z.max 1 n))); [lia|].
    apply fib_frames_enough.
Qed.
